(** * Provider directory view and insert schemas

    A shallow embedding of the client-list page (the provider table with its
    search box, delete dialog and refresh button) and of the insert schemas
    declared in [shared/schema.ts].

    Modelling conventions.
    - A JavaScript string is a [string]: the embedding covers ASCII strings
      ([isAscii]), on which [toLowerCase] folds the letters A-Z and leaves
      every other character and the length is the number of code units.  A
      statement that depends on how text is folded or measured is made for
      ASCII text.
    - [null] is [None]; a value used as a condition goes through its
      truthiness ([truthy]): [null] and the empty string are falsy.
    - React state is one record; an event handler or a mutation runs to
      completion against the state that was rendered when it was triggered
      and yields the next state.  [toast] appends to the list of
      notifications shown so far.  A mutation is not observed while it is
      pending. *)

From Stdlib Require Import Ascii NArith.
From stdpp Require Import strings list gmap.


(** ** JavaScript strings *)

Module JSString.

(** [c.toLowerCase()] on one code unit of ASCII text. *)
Definition lowerChar (c : ascii) : ascii :=
  let n := Ascii.N_of_ascii c in
  if ((65 <=? n)%N && (n <=? 90)%N)%bool then Ascii.ascii_of_N (n + 32) else c.

(** [s.toLowerCase()] on ASCII text, where it works one code unit at a
    time. *)
Fixpoint toLowerCase (s : string) : string :=
  match s with
  | EmptyString => EmptyString
  | String c s' => String (lowerChar c) (toLowerCase s')
  end.

(** [s.startsWith(sub)] *)
Fixpoint startsWith (s sub : string) {struct sub} : bool :=
  match sub, s with
  | EmptyString, _ => true
  | String _ _, EmptyString => false
  | String c sub', String d s' => Ascii.eqb c d && startsWith s' sub'
  end.

(** [s.includes(sub)]: [sub] occurs in [s] at some position. *)
Fixpoint includes (s sub : string) : bool :=
  startsWith s sub
  || match s with
     | EmptyString => false
     | String _ s' => includes s' sub
     end.

(** Truthiness of a [string | null] value. *)
Definition truthy (o : option string) : bool :=
  match o with
  | None => false
  | Some s => negb (String.eqb s "")
  end.

(** What the words "substring" and "case-insensitive substring" mean. *)
Definition substring_of (sub s : string) : Prop :=
  ∃ pre post, s = pre +:+ sub +:+ post.

Definition ci_substring_of (sub s : string) : Prop :=
  ∃ pre mid post, s = pre +:+ mid +:+ post ∧ toLowerCase mid = toLowerCase sub.

(** A string without letters of either case. *)
Definition isLetter (c : ascii) : bool :=
  let n := Ascii.N_of_ascii c in
  ((65 <=? n)%N && (n <=? 90)%N) || ((97 <=? n)%N && (n <=? 122)%N).

Fixpoint noLetters (s : string) : bool :=
  match s with
  | EmptyString => true
  | String c s' => negb (isLetter c) && noLetters s'
  end.

(** The strings the embedding covers: every code unit is below 128. *)
Fixpoint isAscii (s : string) : bool :=
  match s with
  | EmptyString => true
  | String c s' => (Ascii.N_of_ascii c <? 128)%N && isAscii s'
  end.



End JSString.

Import JSString.

(** ** The provider directory view *)

(** The rows of the table.  The page imports the type under the name of the
    persisted row of [shared/schema.ts], but reads and fills the fields
    below, which are those of the sample data. *)
Record HealthcareProvider := mkProvider {
  id : string;
  providerName : string;
  providerType : string;
  ehrGroupId : option string;
  contactEmail : string;
  contactPhone : string;
  address : string;
  status : string;
  notes : string;
  ehrId : option string;
  ehrTenantId : option string;
  onboardedDate : option string;
  lastDataFetch : option string
}.

Definition sampleProviders : list HealthcareProvider :=
  [ mkProvider "1" "Karleigh Mcdaniel" "Clinic" (Some "VOLP-2024")
      "jydutax@mailinator.com" "2323267770"
      "123 Main St, Suite 100, San Francisco, CA 94105" "Active" ""
      None None None None;
    mkProvider "2" "Northwest Health Partners" "Hospital" (Some "NWHP-2024")
      "admin@northwesthealth.org" "5035559876"
      "450 Cedar Avenue, Portland, OR 97204" "Active"
      "Regional hospital network" None None None None;
    mkProvider "3" "Eastside Medical Group" "Private Practice" (Some "EMG-742")
      "contact@eastsidemed.com" "2065551234"
      "820 Bellevue Way, Bellevue, WA 98004" "Pending"
      "Onboarding in progress" None None None None;
    mkProvider "4" "Valley Care Specialists" "Specialist Center"
      (Some "VCS-2023-09") "info@valleycare.net" "4805557654"
      "1275 Desert Palm Drive, Phoenix, AZ 85021" "Active"
      "Cardiology focus" None None None None ].

(** [provider.ehrGroupId && provider.ehrGroupId.toLowerCase().includes(t)] *)
Definition groupIdIncludes (g : option string) (searchTerm : string) : bool :=
  match g with
  | Some s => truthy g && includes (toLowerCase s) searchTerm
  | None => false
  end.

(** The callback of [providers.filter] in [filteredProviders]. *)
Definition matchesSearch (searchQuery : string) (provider : HealthcareProvider)
  : bool :=
  let searchTerm := toLowerCase searchQuery in
  includes (toLowerCase (providerName provider)) searchTerm
  || groupIdIncludes (ehrGroupId provider) searchTerm
  || includes (toLowerCase (contactEmail provider)) searchTerm
  || includes (contactPhone provider) searchTerm.

Definition filteredProviders (providers : list HealthcareProvider)
  (searchQuery : string) : list HealthcareProvider :=
  List.filter (matchesSearch searchQuery) providers.

(** The filter as the specification words it: the predicate on one row, and
    the relation "[r] is the subsequence of [l] made of the elements that
    satisfy [P], in their order". *)
Definition claimed_match (q : string) (p : HealthcareProvider) : Prop :=
  ci_substring_of q (providerName p)
  ∨ (∃ g, ehrGroupId p = Some g ∧ ci_substring_of q g)
  ∨ ci_substring_of q (contactEmail p)
  ∨ substring_of q (contactPhone p).

(** The same with the phone compared against the lower-cased search string,
    as the callback does. *)
Definition lowered_phone_match (q : string) (p : HealthcareProvider) : Prop :=
  ci_substring_of q (providerName p)
  ∨ (∃ g, ehrGroupId p = Some g ∧ ci_substring_of q g)
  ∨ ci_substring_of q (contactEmail p)
  ∨ substring_of (toLowerCase q) (contactPhone p).


(** The searched fields of a row are ASCII text. *)
Definition asciiProvider (p : HealthcareProvider) : bool :=
  isAscii (providerName p)
  && match ehrGroupId p with
     | Some g => isAscii g
     | None => true
     end
  && isAscii (contactEmail p)
  && isAscii (contactPhone p).

Inductive selects {A : Type} (P : A → Prop) : list A → list A → Prop :=
  | selects_nil : selects P [] []
  | selects_keep x l r : P x → selects P l r → selects P (x :: l) (x :: r)
  | selects_drop x l r : ¬ P x → selects P l r → selects P (x :: l) r.

(** *** Component state and effects *)

Inductive ToastVariant := DefaultVariant | Destructive.

Record Toast := mkToast {
  title : string;
  description : string;
  variant : ToastVariant
}.

(** A JavaScript [Error]: the page reads only its [message]. *)
Record Error := mkError { message : string }.

(** The four [useState] cells of [ClientListPage] and the notifications
    raised through [toast]. *)
Record State := mkState {
  searchQuery : string;
  providers : list HealthcareProvider;
  deleteDialogOpen : bool;
  selectedProviderId : option string;
  toasts : list Toast
}.

(** Code that reads and updates the component state. *)
Definition Effect (A : Type) : Type := State → A * State.

#[global] Instance effect_ret : MRet Effect := λ A a st, (a, st).

#[global] Instance effect_bind : MBind Effect :=
  λ A B k m st, let (a, st') := m st in k a st'.

(** The next state of an effect that returns nothing. *)
Definition exec (m : Effect unit) (st : State) : State := (m st).2.

Definition getProviders : Effect (list HealthcareProvider) :=
  λ st, (providers st, st).

Definition getSelectedProviderId : Effect (option string) :=
  λ st, (selectedProviderId st, st).

Definition setSearchQuery (q : string) : Effect unit :=
  λ st, (tt, mkState q (providers st) (deleteDialogOpen st)
               (selectedProviderId st) (toasts st)).

Definition setProviders (ps : list HealthcareProvider) : Effect unit :=
  λ st, (tt, mkState (searchQuery st) ps (deleteDialogOpen st)
               (selectedProviderId st) (toasts st)).

Definition setDeleteDialogOpen (b : bool) : Effect unit :=
  λ st, (tt, mkState (searchQuery st) (providers st) b
               (selectedProviderId st) (toasts st)).

Definition setSelectedProviderId (o : option string) : Effect unit :=
  λ st, (tt, mkState (searchQuery st) (providers st) (deleteDialogOpen st)
               o (toasts st)).

Definition toast (t : Toast) : Effect unit :=
  λ st, (tt, mkState (searchQuery st) (providers st) (deleteDialogOpen st)
               (selectedProviderId st) (toasts st ++ [t])).

(** *** Mutations

    How a promise settles, and the three options the page passes to
    [useMutation].  [mutate v] runs [mutationFn v], then [onSuccess] when
    the promise is fulfilled and [onError] with the error when it is
    rejected. *)
Inductive Settled (A : Type) :=
  | Fulfilled (a : A)
  | Rejected (e : Error).
Arguments Fulfilled {A} a.
Arguments Rejected {A} e.

Definition Promise (A : Type) : Type := Effect (Settled A).

(** An [async] function whose body runs without throwing. *)
Definition async (body : Effect unit) : Promise unit :=
  body;; mret (Fulfilled tt).

Record MutationOptions (V : Type) := mkMutation {
  mutationFn : V → Promise unit;
  onSuccess : Effect unit;
  onError : Error → Effect unit
}.
Arguments mutationFn {V} _ _.
Arguments onSuccess {V} _.
Arguments onError {V} _ _.

Definition settle {V} (m : MutationOptions V) (r : Settled unit) : Effect unit :=
  match r with
  | Fulfilled _ => onSuccess m
  | Rejected e => onError m e
  end.

Definition mutate {V} (m : MutationOptions V) (v : V) : Effect unit :=
  r ← mutationFn m v; settle m r.

(** The notifications of the two mutations. *)
Definition deletedToast : Toast :=
  mkToast "Success" "Healthcare provider has been deleted successfully."
    DefaultVariant.

Definition deleteFailedToast (e : Error) : Toast :=
  mkToast "Error" ("Failed to delete healthcare provider: " +:+ message e)
    Destructive.

Definition refreshedToast : Toast :=
  mkToast "Success" "Client data has been refreshed." DefaultVariant.

Definition refreshFailedToast (e : Error) : Toast :=
  mkToast "Error" ("Failed to refresh data: " +:+ message e) Destructive.

(** [deleteProviderMutation] *)
Definition deleteProviderMutation : MutationOptions string := {|
  mutationFn := λ target,
    async (ps ← getProviders;
           setProviders
             (List.filter (λ p, negb (String.eqb (id p) target)) ps));
  onSuccess := toast deletedToast;; setDeleteDialogOpen false;
  onError := λ error, toast (deleteFailedToast error)
|}.

Definition handleDelete (target : string) : Effect unit :=
  setSelectedProviderId (Some target);;
  setDeleteDialogOpen true.

Definition confirmDelete : Effect unit :=
  sel ← getSelectedProviderId;
  match sel with
  | Some target =>
      if truthy sel then mutate deleteProviderMutation target else mret tt
  | None => mret tt
  end.

(** The Cancel button of the dialog. *)
Definition cancelDelete : Effect unit := setDeleteDialogOpen false.

(** [refreshProviderMutation]: the body of its [mutationFn] is empty. *)
Definition refreshProviderMutation : MutationOptions unit := {|
  mutationFn := λ _, async (mret tt);
  onSuccess := toast refreshedToast;
  onError := λ error, toast (refreshFailedToast error)
|}.

Definition handleRefresh (target : string) : Effect unit :=
  mutate refreshProviderMutation tt.

(** The initial render. *)
Definition initialState : State :=
  mkState "" sampleProviders false None [].

(** *** Example rows and pages used by the statements below *)

(** A provider listed under a vanity phone number. *)
Definition vanityProvider : HealthcareProvider :=
  mkProvider "5" "Bloom Clinic" "Clinic" None "desk@bloom.example"
    "1-800-FLOWERS" "9 Garden Row" "Active" "" None None None None.


Definition providerA : HealthcareProvider :=
  mkProvider "a" "A" "Clinic" None "a@x.org" "1" "" "Active" "" None None None None.
Definition providerB : HealthcareProvider :=
  mkProvider "b" "B" "Clinic" None "b@x.org" "2" "" "Active" "" None None None None.
Definition providerC : HealthcareProvider :=
  mkProvider "c" "C" "Clinic" None "c@x.org" "3" "" "Active" "" None None None None.

(** A page showing the three providers with the dialog open on B. *)
Definition threeProviders : State :=
  mkState "" [providerA; providerB; providerC] true (Some "b") [].

(** *** Events and rendering

    What the user can do on the page, each with the handler the markup
    binds to it: typing in the search box ([onChange]), the refresh and
    trash buttons of a row, the Cancel and Delete buttons of the dialog, and
    the dialog's own [onOpenChange], which is [setDeleteDialogOpen]. *)
Inductive Event :=
  | TypeSearch (q : string)
  | ClickRefresh (target : string)
  | ClickDelete (target : string)
  | ClickCancel
  | ClickConfirm
  | OpenChange (open : bool).

Definition handleEvent (e : Event) : Effect unit :=
  match e with
  | TypeSearch q => setSearchQuery q
  | ClickRefresh target => handleRefresh target
  | ClickDelete target => handleDelete target
  | ClickCancel => cancelDelete
  | ClickConfirm => confirmDelete
  | OpenChange open => setDeleteDialogOpen open
  end.

Definition step (st : State) (e : Event) : State := exec (handleEvent e) st.

(** The state after a sequence of events, first event first. *)
Definition run (st : State) (es : list Event) : State := foldl step st es.

(** No event of the sequence asks the dialog to open by itself. *)
Definition noOpenRequest (es : list Event) : Prop := OpenChange true ∉ es.

(** [provider.ehrGroupId || '-'] *)
Definition groupIdCell (g : option string) : string :=
  match g with
  | Some s => if truthy g then s else "-"
  | None => "-"
  end.

(** [s.charAt(0)] *)
Definition charAt0 (s : string) : string :=
  match s with
  | EmptyString => ""
  | String c _ => String c ""
  end.

(** The rows of the table body: the placeholder, or the cells of one
    provider with the id its three buttons carry. *)
Inductive BodyRow :=
  | NoClientsRow
  | ProviderRow (initial name group email phone rowId : string).

Definition providerRow (p : HealthcareProvider) : BodyRow :=
  ProviderRow (charAt0 (providerName p)) (providerName p)
    (groupIdCell (ehrGroupId p)) (contactEmail p) (contactPhone p) (id p).

Definition tableBody (st : State) : list BodyRow :=
  let shown := filteredProviders (providers st) (searchQuery st) in
  if (length shown =? 0)%nat then [NoClientsRow] else providerRow <$> shown.

(** The footer: the number shown and the noun after it. *)
Definition footerCount (st : State) : nat * string :=
  let shown := filteredProviders (providers st) (searchQuery st) in
  (length shown, if (length shown =? 1)%nat then "client" else "clients").

(** The group cell of a row; the placeholder has none. *)
Definition rowGroup (r : BodyRow) : option string :=
  match r with
  | NoClientsRow => None
  | ProviderRow _ _ group _ _ _ => Some group
  end.

(** ** Validation schemas

    [shared/schema.ts] declares tables with drizzle's column builders and
    derives the insert schemas with [createInsertSchema] and zod's [pick],
    [omit] and [extend].  The part of the two libraries that the file uses is
    modelled here as their documentation describes it (zod 3, drizzle-zod
    0.7).  The length of a string is its number of code units, which on
    ASCII text is the length of the [string]. *)

Module Zod.

(** The values a payload field can hold.  A number is an integer
    ([JNumber]), a finite number with a fractional part, given by its floor
    ([JFraction]), an infinity or [NaN]; [JOther] stands for any value of
    another type (object, array, function, ...). *)
Inductive JsValue :=
  | JUndefined
  | JNull
  | JString (s : string)
  | JNumber (n : Z)
  | JBoolean (b : bool)
  | JDate (t : Z)
  | JOther
  | JFraction (floor : Z)
  | JInfinity (negative : bool)
  | JNaN.

#[global] Instance JsValue_eq_dec : EqDecision JsValue.
Proof. solve_decision. Defined.

(** [data[k]]: a missing key reads as [undefined]. *)
Definition field (data : gmap string JsValue) (k : string) : JsValue :=
  default JUndefined (data !! k).

Inductive StringCheck :=
  | MaxLength (n : nat)
  | Uuid.

(** The checks of [z.number()]: [.min(m)], [.max(m)] with integer bounds,
    and [.int()]. *)
Inductive NumberCheck :=
  | Min (m : Z)
  | Max (m : Z)
  | Int.

Inductive ZodType :=
  | ZString (checks : list StringCheck)
  | ZNumber (checks : list NumberCheck)
  | ZBoolean
  | ZDate
  | ZNullable (inner : ZodType)
  | ZOptional (inner : ZodType).

Inductive SafeParse (A : Type) :=
  | Success (data : A)
  | Failure.
Arguments Success {A} data.
Arguments Failure {A}.

#[global] Instance SafeParse_eq_dec {A} `{EqDecision A} : EqDecision (SafeParse A).
Proof. solve_decision. Defined.

Definition isHexDigit (c : ascii) : bool :=
  let n := Ascii.N_of_ascii c in
  ((48 <=? n)%N && (n <=? 57)%N)
  || ((65 <=? n)%N && (n <=? 70)%N)
  || ((97 <=? n)%N && (n <=? 102)%N).

(** Reads [n] hexadecimal digits and returns what follows them. *)
Fixpoint hexDigits (n : nat) (s : string) : option string :=
  match n, s with
  | O, _ => Some s
  | S n', String c s' => if isHexDigit c then hexDigits n' s' else None
  | S _, EmptyString => None
  end.

Definition dash (o : option string) : option string :=
  match o with
  | Some (String "-" s) => Some s
  | _ => None
  end.

(** The pattern of [z.string().uuid()]: 8-4-4-4-12 hexadecimal digits. *)
Definition isUuid (s : string) : bool :=
  match
    r1 ← dash (hexDigits 8 s); r2 ← dash (hexDigits 4 r1);
    r3 ← dash (hexDigits 4 r2); r4 ← dash (hexDigits 4 r3);
    hexDigits 12 r4
  with
  | Some "" => true
  | _ => false
  end.

Definition checkString (s : string) (c : StringCheck) : bool :=
  match c with
  | MaxLength n => (String.length s <=? n)%nat
  | Uuid => isUuid s
  end.

(** A check on a number.  Bounds are inclusive; a number with floor [f] is
    above an integer bound exactly when [f] is, and below it exactly when
    [f] is strictly below. *)
Definition checkNumber (v : JsValue) (c : NumberCheck) : bool :=
  match c, v with
  | Int, JNumber _ => true
  | Min m, JNumber n => (m <=? n)%Z
  | Max m, JNumber n => (n <=? m)%Z
  | Min m, JFraction f => (m <=? f)%Z
  | Max m, JFraction f => (f <? m)%Z
  | Min _, JInfinity negative => negb negative
  | Max _, JInfinity negative => negative
  | _, _ => false
  end.

(** [z.number()] takes every number but [NaN]. *)
Definition isNumeric (v : JsValue) : bool :=
  match v with
  | JNumber _ | JFraction _ | JInfinity _ => true
  | _ => false
  end.

Fixpoint parseValue (t : ZodType) (v : JsValue) : SafeParse JsValue :=
  match t with
  | ZString checks =>
      match v with
      | JString s => if forallb (checkString s) checks then Success v else Failure
      | _ => Failure
      end
  | ZNumber checks =>
      if isNumeric v && forallb (checkNumber v) checks then Success v
      else Failure
  | ZBoolean => match v with JBoolean _ => Success v | _ => Failure end
  | ZDate => match v with JDate _ => Success v | _ => Failure end
  | ZNullable inner =>
      match v with JNull => Success JNull | _ => parseValue inner v end
  | ZOptional inner =>
      match v with JUndefined => Success JUndefined | _ => parseValue inner v end
  end.

(** What an object schema does with keys that are not in its shape.
    [z.object] starts in [Strip]; [.strict()] and [.passthrough()] select the
    other two. *)
Inductive UnknownKeys := Strip | Strict | Passthrough.

Record ZodObject := mkObject {
  shape : gmap string ZodType;
  unknownKeys : UnknownKeys
}.

Definition object (sh : gmap string ZodType) : ZodObject := mkObject sh Strip.

(** [schema.pick(mask)], [schema.omit(mask)] and [schema.extend(ext)]; a
    mask is given by its keys. *)
Definition pick (mask : list string) (o : ZodObject) : ZodObject :=
  mkObject (filter (λ kt, kt.1 ∈ mask) (shape o)) (unknownKeys o).

Definition omit (mask : list string) (o : ZodObject) : ZodObject :=
  mkObject (filter (λ kt, kt.1 ∉ mask) (shape o)) (unknownKeys o).

Definition extend (ext : gmap string ZodType) (o : ZodObject) : ZodObject :=
  mkObject (ext ∪ shape o) (unknownKeys o).

(** The entry of the output for key [k] of the shape: the parsed value,
    left out when it is [undefined] and the payload has no such key. *)
Definition keyOutput (data : gmap string JsValue) (k : string) (t : ZodType)
  : option JsValue :=
  match parseValue t (field data k) with
  | Success v =>
      if bool_decide (v = JUndefined ∧ data !! k = None) then None else Some v
  | Failure => None
  end.

Definition fieldsValid (sh : gmap string ZodType) (data : gmap string JsValue)
  : bool :=
  bool_decide (map_Forall (λ k t, parseValue t (field data k) ≠ Failure) sh).

Definition unknownFields (sh : gmap string ZodType) (data : gmap string JsValue)
  : gmap string JsValue :=
  filter (λ kv, sh !! kv.1 = None) data.

(** [schema.safeParse(data)] on an object payload. *)
Definition safeParse (o : ZodObject) (data : gmap string JsValue)
  : SafeParse (gmap string JsValue) :=
  if fieldsValid (shape o) data then
    let out := map_imap (keyOutput data) (shape o) in
    match unknownKeys o with
    | Strip => Success out
    | Passthrough => Success (out ∪ unknownFields (shape o) data)
    | Strict =>
        if bool_decide (unknownFields (shape o) data = ∅) then Success out
        else Failure
    end
  else Failure.

End Zod.

Module Drizzle.
Import Zod.

Inductive ColumnType :=
  | PgText
  | PgSerial
  | PgInteger
  | PgBoolean
  | PgTimestamp
  | PgVarchar (length : nat).

Record Column := mkColumn {
  columnName : string;
  columnType : ColumnType;
  isNotNull : bool;
  hasDefault : bool;
  isPrimaryKey : bool;
  isUnique : bool
}.

(** Column builders.  [serial] is not null and has a default. *)
Definition text (n : string) : Column := mkColumn n PgText false false false false.
Definition serial (n : string) : Column := mkColumn n PgSerial true true false false.
Definition integer (n : string) : Column := mkColumn n PgInteger false false false false.
Definition boolean (n : string) : Column := mkColumn n PgBoolean false false false false.
Definition timestamp (n : string) : Column := mkColumn n PgTimestamp false false false false.
Definition varchar (n : string) (len : nat) : Column :=
  mkColumn n (PgVarchar len) false false false false.

Definition notNull (c : Column) : Column :=
  mkColumn (columnName c) (columnType c) true (hasDefault c) (isPrimaryKey c) (isUnique c).
Definition unique (c : Column) : Column :=
  mkColumn (columnName c) (columnType c) (isNotNull c) (hasDefault c) (isPrimaryKey c) true.
Definition primaryKey (c : Column) : Column :=
  mkColumn (columnName c) (columnType c) true (hasDefault c) true (isUnique c).
(** [.default(v)] and [.defaultNow()] *)
Definition withDefault (c : Column) : Column :=
  mkColumn (columnName c) (columnType c) (isNotNull c) true (isPrimaryKey c) (isUnique c).
(** [.references(...)] leaves the column as it is. *)
Definition references (c : Column) : Column := c.

(** A table: its name and its columns in the order of declaration. *)
Record Table := pgTable {
  tableName : string;
  columns : list (string * Column)
}.

Definition int32Min : Z := -2147483648.
Definition int32Max : Z := 2147483647.

(** The schema of a column's value (drizzle-zod 0.7): an [integer] or
    [serial] column is [z.number().min(-2^31).max(2^31-1).int()]. *)
Definition columnSchema (c : Column) : ZodType :=
  match columnType c with
  | PgText => ZString []
  | PgVarchar len => ZString [MaxLength len]
  | PgSerial | PgInteger => ZNumber [Min int32Min; Max int32Max; Int]
  | PgBoolean => ZBoolean
  | PgTimestamp => ZDate
  end.

(** A nullable column is [.nullable().optional()], a column that is not
    null and has a default is [.optional()], any other is required. *)
Definition insertColumnSchema (c : Column) : ZodType :=
  if negb (isNotNull c) then ZOptional (ZNullable (columnSchema c))
  else if hasDefault c then ZOptional (columnSchema c)
  else columnSchema c.

Definition createInsertSchema (t : Table) : ZodObject :=
  object (insertColumnSchema <$> list_to_map (columns t)).

End Drizzle.

(** *** The tables and insert schemas of [shared/schema.ts] *)

Module Schema.
Import Zod Drizzle.

Definition users : Table :=
  pgTable "users"
    [ ("id", primaryKey (serial "id"));
      ("username", unique (notNull (text "username")));
      ("password", notNull (text "password")) ].

Definition healthcareProviders : Table :=
  pgTable "healthcare_providers"
    [ ("id", primaryKey (serial "id"));
      ("name", notNull (text "name"));
      ("groupId", unique (notNull (text "group_id")));
      ("contactName", text "contact_name");
      ("email", notNull (text "email"));
      ("phone", notNull (text "phone"));
      ("company", text "company");
      ("address", text "address");
      ("city", text "city");
      ("state", text "state");
      ("zipCode", text "zip_code");
      ("country", withDefault (text "country"));
      ("createdAt", withDefault (timestamp "created_at")) ].

Definition ehrSystems : Table :=
  pgTable "ehr_systems"
    [ ("id", primaryKey (varchar "id" 36));
      ("ehrName", unique (notNull (varchar "ehr_name" 255)));
      ("apiBaseEndpoint", varchar "api_base_endpoint" 255);
      ("description", text "description");
      ("isSupported", withDefault (boolean "is_supported"));
      ("addedOn", withDefault (timestamp "added_on"));
      ("lastUpdated", withDefault (timestamp "last_updated"));
      ("providerId", references (integer "provider_id")) ].

Definition dataFetchHistory : Table :=
  pgTable "data_fetch_history"
    [ ("id", primaryKey (serial "id"));
      ("providerId", notNull (references (integer "provider_id")));
      ("fetchDate", withDefault (timestamp "fetch_date"));
      ("s3Location", notNull (text "s3_location"));
      ("status", withDefault (text "status")) ].

Definition insertUserSchema : ZodObject :=
  pick ["username"; "password"] (createInsertSchema users).

Definition insertHealthcareProviderSchema : ZodObject :=
  omit ["id"; "createdAt"] (createInsertSchema healthcareProviders).

Definition insertEhrSystemSchema : ZodObject :=
  extend {[ "id" := ZOptional (ZString [Uuid]) ]}
    (omit ["id"; "addedOn"; "lastUpdated"] (createInsertSchema ehrSystems)).

Definition insertDataFetchHistorySchema : ZodObject :=
  omit ["id"; "fetchDate"] (createInsertSchema dataFetchHistory).

Definition insertSchemas : list ZodObject :=
  [ insertUserSchema; insertHealthcareProviderSchema;
    insertEhrSystemSchema; insertDataFetchHistorySchema ].

(** A persisted row of [healthcare_providers]
    ([typeof healthcareProviders.$inferSelect]): a column that is not
    declared [notNull] may hold [null]. *)
Record HealthcareProvider := mkRow {
  id : Z;
  name : string;
  groupId : string;
  contactName : option string;
  email : string;
  phone : string;
  company : option string;
  address : option string;
  city : option string;
  state : option string;
  zipCode : option string;
  country : option string;
  createdAt : option Z
}.

Definition nullable {A} (f : A → JsValue) (o : option A) : JsValue :=
  match o with
  | Some a => f a
  | None => JNull
  end.

(** The row as a JavaScript object. *)
Definition rowObject (r : HealthcareProvider) : gmap string JsValue :=
  list_to_map
    [ ("id", JNumber (id r));
      ("name", JString (name r));
      ("groupId", JString (groupId r));
      ("contactName", nullable JString (contactName r));
      ("email", JString (email r));
      ("phone", JString (phone r));
      ("company", nullable JString (company r));
      ("address", nullable JString (address r));
      ("city", nullable JString (city r));
      ("state", nullable JString (state r));
      ("zipCode", nullable JString (zipCode r));
      ("country", nullable JString (country r));
      ("createdAt", nullable JDate (createdAt r)) ].

(** The insert payload built from a row: the row without [id] and
    [createdAt]. *)
Definition insertPayload (r : HealthcareProvider) : gmap string JsValue :=
  delete "createdAt" (delete "id" (rowObject r)).

(** The keys of an insert payload built from a row. *)
Definition insertProviderKeys : list string :=
  ["name"; "groupId"; "contactName"; "email"; "phone"; "company";
   "address"; "city"; "state"; "zipCode"; "country"].

(** The payload restricted to the keys of a shape. *)
Definition knownFields (sh : gmap string ZodType) (data : gmap string JsValue)
  : gmap string JsValue :=
  filter (λ kv, is_Some (sh !! kv.1)) data.

(** The server-generated columns of a table: its primary key and its
    timestamps. *)
Definition isServerGenerated (c : Column) : bool :=
  isPrimaryKey c
  || match columnType c with
     | PgTimestamp => true
     | _ => false
     end.

Definition serverGenerated (t : Table) : list string :=
  (List.filter (λ kc, isServerGenerated kc.2) (columns t)).*1.

(** Each table with its insert schema. *)
Definition tableSchemas : list (Table * ZodObject) :=
  [ (users, insertUserSchema);
    (healthcareProviders, insertHealthcareProviderSchema);
    (ehrSystems, insertEhrSystemSchema);
    (dataFetchHistory, insertDataFetchHistorySchema) ].

(** The server-generated keys that an insert shape still declares. *)
Definition declaredServerKeys (ts : Table * ZodObject) : list string :=
  List.filter (λ k, bool_decide (is_Some (shape ts.2 !! k)))
    (serverGenerated ts.1).

(** A provider payload that carries the primary key and the timestamp, the
    same payload without them, and an EHR payload with its own id. *)
Definition providerFields : gmap string JsValue :=
  list_to_map
    [ ("name", JString "Bloom Clinic");
      ("groupId", JString "BLOOM-1");
      ("email", JString "desk@bloom.example");
      ("phone", JString "1-800-FLOWERS") ].

Definition providerPayloadWithServerFields : gmap string JsValue :=
  <["id" := JNumber 7]> (<["createdAt" := JDate 0]> providerFields).

Definition ehrPayloadWithId : gmap string JsValue :=
  list_to_map
    [ ("id", JString "123e4567-e89b-42d3-a456-426614174000");
      ("ehrName", JString "Epic") ].

(** Readable conditions on the value read at a key. *)
Definition isString (v : JsValue) : Prop := ∃ s, v = JString s.
Definition isStringUpTo (n : nat) (v : JsValue) : Prop :=
  ∃ s, v = JString s ∧ String.length s ≤ n.
Definition isInt32 (v : JsValue) : Prop :=
  ∃ n, v = JNumber n ∧ (int32Min ≤ n ≤ int32Max)%Z.
(** The value is not a string outside ASCII text. *)
Definition asciiValue (v : JsValue) : bool :=
  match v with
  | JString s => isAscii s
  | _ => true
  end.
Definition isBoolean (v : JsValue) : Prop := ∃ b, v = JBoolean b.
Definition isUuidString (v : JsValue) : Prop :=
  ∃ s, v = JString s ∧ isUuid s = true.
(** Missing or [undefined], and additionally [null]. *)
Definition orMissing (P : JsValue → Prop) (v : JsValue) : Prop :=
  v = JUndefined ∨ P v.
Definition orNullish (P : JsValue → Prop) (v : JsValue) : Prop :=
  v = JUndefined ∨ v = JNull ∨ P v.

End Schema.

(** Evaluates the lookup of a given key in a shape and in a payload. *)
Ltac eval_key :=
  match goal with
  | |- context [Zod.shape ?o !! ?k] =>
      let v := eval vm_compute in (Zod.shape o !! k) in
      change (Zod.shape o !! k) with v; cbv beta iota
  end;
  match goal with
  | |- context [Zod.field ?d ?k] =>
      let v := eval vm_compute in (Zod.field d k) in
      change (Zod.field d k) with v
  end.

(** ** Strings *)

Section string_facts.

#[local] Arguments String.append !_ _ / : simpl nomatch.

Lemma app_empty_r (s : string) : s +:+ "" = s.
Proof. induction s as [|c s IH]; simpl; [done | by rewrite IH]. Qed.

Lemma app_assoc_s (a b c : string) : a +:+ (b +:+ c) = (a +:+ b) +:+ c.
Proof. induction a as [|x a IH]; simpl; [done | by rewrite IH]. Qed.

Lemma startsWith_spec (s sub : string) :
  startsWith s sub = true ↔ ∃ post, s = sub +:+ post.
Proof.
  revert s. induction sub as [|c sub IH]; intros s; simpl.
  - split; [intros _; by exists s | done].
  - destruct s as [|d s].
    + split; [done | intros [post H]; discriminate].
    + rewrite andb_true_iff, Ascii.eqb_eq, IH. split.
      * intros [-> [post ->]]. by exists post.
      * intros [post H]. injection H as -> ->. eauto.
Qed.

Lemma includes_spec (s sub : string) :
  includes s sub = true ↔ substring_of sub s.
Proof.
  unfold substring_of. induction s as [|d s IH]; simpl.
  - rewrite orb_false_r, startsWith_spec. split.
    + intros [post H]. by exists "", post.
    + intros [pre [post H]]. destruct pre; [by exists post | discriminate].
  - rewrite orb_true_iff, startsWith_spec, IH. split.
    + intros [[post H] | [pre [post H]]].
      * by exists "", post.
      * exists (String d pre), post. simpl. by rewrite H.
    + intros [pre [post H]]. destruct pre as [|x pre]; simpl in H.
      * left. by exists post.
      * right. injection H as -> ->. by exists pre, post.
Qed.

Lemma includes_empty (s : string) : includes s "" = true.
Proof. by destruct s. Qed.

Lemma toLowerCase_app (a b : string) :
  toLowerCase (a +:+ b) = toLowerCase a +:+ toLowerCase b.
Proof. induction a as [|x a IH]; simpl; [done | by rewrite IH]. Qed.






Lemma lowerChar_no_letter (c : ascii) :
  isLetter (lowerChar c) = false → lowerChar c = c.
Proof. destruct c as [[] [] [] [] [] [] [] []]; by vm_compute. Qed.

Lemma lowerChar_of_no_letter (c : ascii) : isLetter c = false → lowerChar c = c.
Proof. destruct c as [[] [] [] [] [] [] [] []]; by vm_compute. Qed.

Lemma noLetters_app (a b : string) :
  noLetters (a +:+ b) = noLetters a && noLetters b.
Proof. induction a as [|x a IH]; simpl; [done | by rewrite IH, andb_assoc]. Qed.

Lemma toLowerCase_no_letters (s : string) :
  noLetters s = true → toLowerCase s = s.
Proof.
  induction s as [|c s IH]; simpl; [done |].
  rewrite andb_true_iff, negb_true_iff. intros [Hc Hs].
  by rewrite lowerChar_of_no_letter, IH.
Qed.

Lemma toLowerCase_no_letters_inv (s : string) :
  noLetters (toLowerCase s) = true → toLowerCase s = s.
Proof.
  induction s as [|c s IH]; simpl; [done |].
  rewrite andb_true_iff, negb_true_iff. intros [Hc Hs].
  by rewrite lowerChar_no_letter, IH.
Qed.

Lemma substring_lower_no_letters (q s : string) :
  noLetters s = true → substring_of (toLowerCase q) s ↔ substring_of q s.
Proof.
  intros Hs. split; intros (pre & post & ->);
    rewrite !noLetters_app, !andb_true_iff in Hs; destruct Hs as (_ & Hq & _).
  - exists pre, post. by rewrite (toLowerCase_no_letters_inv q Hq).
  - exists pre, post. by rewrite (toLowerCase_no_letters q Hq).
Qed.

End string_facts.

(** ** The filter *)

Section filter_facts.




Lemma filter_selects {A} (f : A → bool) (l : list A) :
  selects (λ x, f x = true) l (List.filter f l).
Proof.
  induction l as [|x l IH]; simpl; [constructor |].
  destruct (f x) eqn:Hx; constructor; try done. by rewrite Hx.
Qed.

Lemma selects_iff {A} (P Q : A → Prop) (l r : list A) :
  (∀ x, P x ↔ Q x) → selects P l r → selects Q l r.
Proof.
  intros HPQ. induction 1 as [|x l r Hx _ IH|x l r Hx _ IH].
  - constructor.
  - apply selects_keep; [by apply HPQ | done].
  - apply selects_drop; [by rewrite <- HPQ | done].
Qed.



(** On a row whose phone holds no letter the two readings of the phone
    clause agree. *)
Lemma claimed_match_no_letters (q : string) (p : HealthcareProvider) :
  noLetters (contactPhone p) = true →
  claimed_match q p ↔ lowered_phone_match q p.
Proof.
  intros Hp. unfold claimed_match, lowered_phone_match.
  by rewrite (substring_lower_no_letters q _ Hp).
Qed.

End filter_facts.

Section case_insensitive_facts.




(** What the callback does with a phone that has upper-case letters: it
    compares the phone as it is with the lower-cased query, so neither
    spelling of the letters finds the row. *)
Lemma upper_case_phone_is_not_found :
  filteredProviders [vanityProvider] "FLOWERS" = []
  ∧ filteredProviders [vanityProvider] "flowers" = [].
Proof. split; reflexivity. Qed.

End case_insensitive_facts.




(** C6: on the four sample providers the query "2024" returns exactly the
    rows with ids "1" and "2", which are the rows whose [ehrGroupId]
    contains "2024"; no sample row matches through its name, its email or
    its phone. *)
Theorem filteredProviders_sample_2024 :
  id <$> filteredProviders sampleProviders "2024" = ["1"; "2"]
  ∧ filteredProviders sampleProviders "2024"
    = List.filter
        (λ p, match ehrGroupId p with
              | Some g => includes g "2024"
              | None => false
              end) sampleProviders
  ∧ Forall (λ p,
      includes (toLowerCase (providerName p)) "2024" = false
      ∧ includes (toLowerCase (contactEmail p)) "2024" = false
      ∧ includes (contactPhone p) "2024" = false) sampleProviders.
Proof.
  split_and!; [by vm_compute | by vm_compute |].
  repeat constructor.
Qed.

(** ** The delete flow *)

Section delete_facts.

Implicit Types (st : State) (target : string) (p : HealthcareProvider).

(** The callback of the filter in [mutationFn]: [p.id !== id]. *)
Lemma keeps_iff p target :
  negb (String.eqb (id p) target) = true ↔ id p ≠ target.
Proof. by rewrite negb_true_iff, String.eqb_neq. Qed.

Lemma delete_mutationFn_fulfils target st :
  mutationFn deleteProviderMutation target st
  = (Fulfilled tt,
     mkState (searchQuery st)
       (List.filter (λ p, negb (String.eqb (id p) target)) (providers st))
       (deleteDialogOpen st) (selectedProviderId st) (toasts st)).
Proof. done. Qed.

Lemma delete_mutate_state target st :
  exec (mutate deleteProviderMutation target) st
  = mkState (searchQuery st)
      (List.filter (λ p, negb (String.eqb (id p) target)) (providers st))
      false (selectedProviderId st) (toasts st ++ [deletedToast]).
Proof. done. Qed.

Lemma delete_selects target st :
  selects (λ p, id p ≠ target) (providers st)
    (providers (exec (mutate deleteProviderMutation target) st)).
Proof.
  rewrite delete_mutate_state. simpl.
  eapply selects_iff; [| apply filter_selects].
  intros p. apply keeps_iff.
Qed.

Lemma filter_all {A} (f : A → bool) (l : list A) :
  (∀ x, x ∈ l → f x = true) → List.filter f l = l.
Proof.
  induction l as [|x l IH]; intros Hf; simpl; [done |].
  rewrite Hf by left. f_equal. apply IH. intros y Hy. apply Hf. by right.
Qed.

Lemma confirmDelete_selected target st :
  selectedProviderId st = Some target → target ≠ "" →
  exec confirmDelete st = exec (mutate deleteProviderMutation target) st.
Proof.
  intros Hsel Hne. unfold confirmDelete, exec, mbind, effect_bind.
  unfold getSelectedProviderId. rewrite Hsel. simpl.
  apply String.eqb_neq in Hne. by rewrite Hne.
Qed.

End delete_facts.

(** C2: when the collection is [A,B,C] with B's id different from A's and
    C's, the delete mutation for B's id is fulfilled, leaves [A,C] and
    closes the dialog; a row is removed exactly when its id equals the
    target. *)
Theorem delete_middle_provider
    (st : State) (a b c : HealthcareProvider) :
  providers st = [a; b; c] → id a ≠ id b → id c ≠ id b →
  (mutationFn deleteProviderMutation (id b) st).1 = Fulfilled tt
  ∧ providers (exec (mutate deleteProviderMutation (id b)) st) = [a; c]
  ∧ deleteDialogOpen (exec (mutate deleteProviderMutation (id b)) st) = false
  ∧ toasts (exec (mutate deleteProviderMutation (id b)) st)
    = toasts st ++ [deletedToast]
  ∧ selects (λ p, id p ≠ id b) (providers st)
      (providers (exec (mutate deleteProviderMutation (id b)) st)).
Proof.
  intros Hps Ha Hc. split_and!; try done.
  - rewrite delete_mutate_state, Hps. simpl.
    apply String.eqb_neq in Ha, Hc.
    by rewrite Ha, Hc, String.eqb_refl.
  - apply delete_selects.
Qed.

Lemma delete_middle_provider_witness :
  providers threeProviders = [providerA; providerB; providerC]
  ∧ id providerA ≠ id providerB
  ∧ id providerC ≠ id providerB
  ∧ providers (exec (mutate deleteProviderMutation (id providerB)) threeProviders)
    = [providerA; providerC].
Proof.
  split_and!; [reflexivity | discriminate | discriminate |].
  apply (delete_middle_provider threeProviders providerA providerB providerC);
    [reflexivity | discriminate | discriminate].
Defined.

(** C3: on the error path of the delete mutation the handler raises one
    notification, titled "Error", of the destructive variant, whose text is
    "Failed to delete healthcare provider: " followed by the error's
    message, and changes nothing else:
    the collection, the dialog flag (open after [handleDelete]) and the
    pending target are as before.  The removal itself is performed by a
    [mutationFn] that is always fulfilled, so no run removes a row and then
    takes the error path. *)
Theorem delete_failure_keeps_dialog_and_collection
    (st : State) (e : Error) (target : string) :
  providers (exec (settle deleteProviderMutation (Rejected e)) st) = providers st
  ∧ deleteDialogOpen (exec (settle deleteProviderMutation (Rejected e)) st)
    = deleteDialogOpen st
  ∧ deleteDialogOpen
      (exec (settle deleteProviderMutation (Rejected e))
         (exec (handleDelete target) st)) = true
  ∧ selectedProviderId (exec (settle deleteProviderMutation (Rejected e)) st)
    = selectedProviderId st
  ∧ toasts (exec (settle deleteProviderMutation (Rejected e)) st)
    = toasts st
      ++ [mkToast "Error"
            ("Failed to delete healthcare provider: " +:+ message e)
            Destructive]
  ∧ (∀ t, last (toasts (exec (settle deleteProviderMutation (Rejected e)) st))
          = Some t →
          title t = "Error" ∧ variant t = Destructive
          ∧ ∃ pre, description t = pre +:+ message e)
  ∧ (mutationFn deleteProviderMutation target st).1 = Fulfilled tt.
Proof.
  split_and!; try done.
  intros t Ht. change (toasts (exec (settle deleteProviderMutation (Rejected e)) st))
    with (toasts st ++ [deleteFailedToast e]) in Ht.
  rewrite last_snoc in Ht. injection Ht as <-.
  split_and!; [done | done |]. by eexists.
Qed.

(** C4: for an id that no provider of the collection has, the delete
    mutation leaves the collection unchanged and its promise is fulfilled,
    not rejected. *)
Theorem delete_unknown_id_is_noop (st : State) (target : string) :
  (∀ p, p ∈ providers st → id p ≠ target) →
  providers (exec (mutate deleteProviderMutation target) st) = providers st
  ∧ (mutationFn deleteProviderMutation target st).1 = Fulfilled tt.
Proof.
  intros Hnone. split; [| done].
  rewrite delete_mutate_state. simpl. apply filter_all.
  intros p Hp. by apply keeps_iff, Hnone.
Qed.

Lemma delete_unknown_id_is_noop_witness :
  (∀ p, p ∈ providers initialState → id p ≠ "99")
  ∧ providers (exec (mutate deleteProviderMutation "99") initialState)
    = sampleProviders.
Proof.
  assert (∀ p, p ∈ providers initialState → id p ≠ "99") as Hnone.
  { intros p Hp. simpl in Hp. unfold sampleProviders in Hp.
    repeat (apply elem_of_cons in Hp as [-> | Hp]; [discriminate |]).
    by apply elem_of_nil in Hp. }
  split; [exact Hnone |].
  apply (delete_unknown_id_is_noop initialState "99" Hnone).
Defined.

(** C10: after a delete confirmed for a pending target, the dialog is
    closed and [selectedProviderId] still holds that target, so a second
    [confirmDelete] runs the delete mutation for the same id again: it is
    not the identity on the state. *)
Theorem delete_success_keeps_selected_id (st : State) (target : string) :
  selectedProviderId st = Some target → target ≠ "" →
  deleteDialogOpen (exec confirmDelete st) = false
  ∧ selectedProviderId (exec confirmDelete st) = Some target
  ∧ exec confirmDelete (exec confirmDelete st)
    = exec (mutate deleteProviderMutation target) (exec confirmDelete st)
  ∧ toasts (exec confirmDelete (exec confirmDelete st))
    = toasts st ++ [deletedToast; deletedToast]
  ∧ exec confirmDelete (exec confirmDelete st) ≠ exec confirmDelete st.
Proof.
  intros Hsel Hne.
  pose proof (confirmDelete_selected target st Hsel Hne) as H1.
  assert (selectedProviderId (exec confirmDelete st) = Some target) as Hsel'.
  { by rewrite H1, delete_mutate_state. }
  pose proof (confirmDelete_selected target _ Hsel' Hne) as H2.
  assert (toasts (exec confirmDelete (exec confirmDelete st))
          = toasts st ++ [deletedToast; deletedToast]) as Ht.
  { rewrite H2, H1, !delete_mutate_state. simpl. by rewrite <- app_assoc. }
  split_and!; try done.
  - by rewrite H1, delete_mutate_state.
  - intros Heq. rewrite Heq in Ht. rewrite H1, delete_mutate_state in Ht.
    simpl in Ht. apply (f_equal length) in Ht.
    rewrite !length_app in Ht. simpl in Ht. lia.
Qed.

Lemma delete_success_keeps_selected_id_witness :
  selectedProviderId threeProviders = Some "b"
  ∧ "b" ≠ ""
  ∧ selectedProviderId (exec confirmDelete threeProviders) = Some "b"
  ∧ exec confirmDelete (exec confirmDelete threeProviders)
    ≠ exec confirmDelete threeProviders.
Proof.
  split_and!; [reflexivity | discriminate | |];
    apply (delete_success_keeps_selected_id threeProviders "b");
    (reflexivity || discriminate).
Defined.

(** ** The refresh action *)

(** C5: however the refresh mutation settles, its handler raises one
    notification and leaves the collection, with every field of every row
    and the row order, as it was; so does a click on a row's refresh
    button. *)
Theorem refresh_frames_collection
    (st : State) (e : Error) (target : string) :
  providers (exec (settle refreshProviderMutation (Fulfilled tt)) st)
  = providers st
  ∧ toasts (exec (settle refreshProviderMutation (Fulfilled tt)) st)
    = toasts st ++ [refreshedToast]
  ∧ providers (exec (settle refreshProviderMutation (Rejected e)) st)
    = providers st
  ∧ toasts (exec (settle refreshProviderMutation (Rejected e)) st)
    = toasts st ++ [refreshFailedToast e]
  ∧ providers (exec (handleRefresh target) st) = providers st
  ∧ toasts (exec (handleRefresh target) st) = toasts st ++ [refreshedToast]
  ∧ filteredProviders (providers (exec (handleRefresh target) st))
      (searchQuery (exec (handleRefresh target) st))
    = filteredProviders (providers st) (searchQuery st).
Proof. by split_and!. Qed.

(** C9: the refresh handler does not depend on the provider id it is given:
    from the same state, any two ids yield the same next state, hence the
    same notification, and the same holds however the mutation settles. *)
Theorem handleRefresh_ignores_id (id1 id2 : string) (st : State) :
  handleRefresh id1 st = handleRefresh id2 st
  ∧ exec (handleRefresh id1) st = exec (handleRefresh id2) st
  ∧ toasts (exec (handleRefresh id1) st) = toasts (exec (handleRefresh id2) st)
  ∧ exec (handleRefresh id1) st
    = mkState (searchQuery st) (providers st) (deleteDialogOpen st)
        (selectedProviderId st) (toasts st ++ [refreshedToast]).
Proof. by split_and!. Qed.

(** ** Further properties of the view *)

Section view_facts.

Implicit Types (st : State) (target : string) (p : HealthcareProvider)
  (ps : list HealthcareProvider) (q : string).

Lemma substring_of_trans (a b c : string) :
  substring_of a b → substring_of b c → substring_of a c.
Proof.
  intros (p1 & s1 & ->) (p2 & s2 & ->).
  exists (p2 +:+ p1), (s1 +:+ s2). by rewrite <- !app_assoc_s.
Qed.

Lemma substring_of_lower (a b : string) :
  substring_of a b → substring_of (toLowerCase a) (toLowerCase b).
Proof.
  intros (pre & post & ->). exists (toLowerCase pre), (toLowerCase post).
  by rewrite !toLowerCase_app.
Qed.

Lemma includes_narrow (s a b : string) :
  substring_of a b → includes s b = true → includes s a = true.
Proof. rewrite !includes_spec. apply substring_of_trans. Qed.

Lemma matchesSearch_narrow q q' p :
  substring_of q q' → matchesSearch q' p = true → matchesSearch q p = true.
Proof.
  intros Hq%substring_of_lower. unfold matchesSearch, groupIdIncludes.
  rewrite !orb_true_iff.
  intros [[[H | H] | H] | H].
  - do 3 left. by eapply includes_narrow.
  - do 2 left. right. destruct (ehrGroupId p) as [g|]; [|done].
    apply andb_true_iff in H as [Ht H]. rewrite Ht. simpl.
    by eapply includes_narrow.
  - left. right. by eapply includes_narrow.
  - right. by eapply includes_narrow.
Qed.

Lemma filter_filter_imp {A} (f g : A → bool) (l : list A) :
  (∀ x, g x = true → f x = true) →
  List.filter g (List.filter f l) = List.filter g l.
Proof.
  intros Hgf. induction l as [|x l IH]; simpl; [done |].
  destruct (f x) eqn:Hf; simpl.
  - by rewrite IH.
  - destruct (g x) eqn:Hg; [| done]. apply Hgf in Hg. congruence.
Qed.

Lemma filter_is_sublist {A} (f : A → bool) (l : list A) :
  List.filter f l `sublist_of` l.
Proof.
  induction l as [|x l IH]; simpl; [constructor |].
  destruct (f x); by constructor.
Qed.

Lemma filter_swap {A} (f g : A → bool) (l : list A) :
  List.filter f (List.filter g l) = List.filter g (List.filter f l).
Proof.
  induction l as [|x l IH]; simpl; [done |].
  destruct (f x) eqn:Hf, (g x) eqn:Hg; simpl; rewrite ?Hf, ?Hg, ?IH; done.
Qed.

Lemma filter_twice {A} (f : A → bool) (l : list A) :
  List.filter f (List.filter f l) = List.filter f l.
Proof. by apply filter_filter_imp. Qed.

Lemma lowerChar_idemp (c : ascii) : lowerChar (lowerChar c) = lowerChar c.
Proof. destruct c as [[] [] [] [] [] [] [] []]; by vm_compute. Qed.

Lemma toLowerCase_idemp (s : string) :
  toLowerCase (toLowerCase s) = toLowerCase s.
Proof.
  induction s as [|c s IH]; simpl; [done |].
  by rewrite lowerChar_idemp, IH.
Qed.

(** The collection left by the delete mutation. *)
Lemma delete_providers target st :
  providers (exec (mutate deleteProviderMutation target) st)
  = List.filter (λ p, negb (String.eqb (id p) target)) (providers st).
Proof. done. Qed.

Lemma filter_forall {A} (f : A → bool) (l : list A) :
  Forall (λ x, f x = true) (List.filter f l).
Proof.
  induction l as [|x l IH]; simpl; [constructor |].
  destruct (f x) eqn:Hx; [by constructor | done].
Qed.

Lemma filter_one_removed ps target :
  NoDup (id <$> ps) → target ∈ id <$> ps →
  S (length (List.filter (λ p, negb (String.eqb (id p) target)) ps))
  = length ps.
Proof.
  induction ps as [|p ps IH]; simpl; intros Hnd Hin.
  - by apply elem_of_nil in Hin.
  - apply NoDup_cons in Hnd as [Hp Hnd].
    destruct (String.eqb (id p) target) eqn:Heq; simpl.
    + apply String.eqb_eq in Heq. subst target. f_equal. f_equal.
      apply filter_all. intros x Hx. apply keeps_iff. intros Hid.
      apply Hp. rewrite <- Hid. apply list_elem_of_fmap. by exists x.
    + f_equal. apply IH; [done |].
      apply elem_of_cons in Hin as [Hin | Hin]; [| done].
      apply String.eqb_neq in Heq. congruence.
Qed.

Lemma step_providers_sublist st (e : Event) :
  providers (step st e) `sublist_of` providers st.
Proof.
  destruct e; try reflexivity.
  unfold step, handleEvent.
  destruct (selectedProviderId st) as [t|] eqn:Hsel.
  - destruct (decide (t = "")) as [-> | Hne].
    + unfold exec, confirmDelete, mbind, effect_bind, getSelectedProviderId.
      by rewrite Hsel.
    + rewrite (confirmDelete_selected t st Hsel Hne), delete_providers.
      apply filter_is_sublist.
  - unfold exec, confirmDelete, mbind, effect_bind, getSelectedProviderId.
    by rewrite Hsel.
Qed.

Lemma step_toasts_prefix st (e : Event) :
  toasts st `prefix_of` toasts (step st e).
Proof.
  destruct e; try reflexivity; try (by eexists).
  unfold step, handleEvent.
  destruct (selectedProviderId st) as [t|] eqn:Hsel.
  - destruct (decide (t = "")) as [-> | Hne].
    + unfold exec, confirmDelete, mbind, effect_bind, getSelectedProviderId.
      by rewrite Hsel.
    + rewrite (confirmDelete_selected t st Hsel Hne), delete_mutate_state.
      by eexists.
  - unfold exec, confirmDelete, mbind, effect_bind, getSelectedProviderId.
    by rewrite Hsel.
Qed.

Lemma step_selected_kept st (e : Event) :
  is_Some (selectedProviderId st) → is_Some (selectedProviderId (step st e)).
Proof.
  intros [t Hsel]. destruct e; try (by exists t); try (by eexists).
  unfold step, handleEvent.
  destruct (decide (t = "")) as [-> | Hne].
  - unfold exec, confirmDelete, mbind, effect_bind, getSelectedProviderId.
    rewrite Hsel. by exists "".
  - rewrite (confirmDelete_selected t st Hsel Hne), delete_mutate_state.
    by exists t.
Qed.

Lemma step_dialog_target st (e : Event) :
  e ≠ OpenChange true →
  (deleteDialogOpen st = true → is_Some (selectedProviderId st)) →
  deleteDialogOpen (step st e) = true → is_Some (selectedProviderId (step st e)).
Proof.
  intros He Hinv. destruct e as [q|t|t| | |[]].
  - exact Hinv.
  - exact Hinv.
  - intros _. by eexists.
  - intros Hopen. discriminate Hopen.
  - intros Hopen. apply step_selected_kept, Hinv.
    revert Hopen. unfold step, handleEvent.
    destruct (selectedProviderId st) as [t|] eqn:Hsel.
    + destruct (decide (t = "")) as [-> | Hne].
      * unfold exec, confirmDelete, mbind, effect_bind, getSelectedProviderId.
        by rewrite Hsel.
      * by rewrite (confirmDelete_selected t st Hsel Hne), delete_mutate_state.
    + unfold exec, confirmDelete, mbind, effect_bind, getSelectedProviderId.
      by rewrite Hsel.
  - by destruct He.
  - intros Hopen. discriminate Hopen.
Qed.

Lemma elem_of_bool_filter {A} (f : A → bool) (l : list A) (x : A) :
  x ∈ List.filter f l ↔ f x = true ∧ x ∈ l.
Proof.
  rewrite !list_elem_of_In, List.filter_In. tauto.
Qed.

Lemma includes_self (s : string) : includes s s = true.
Proof. apply includes_spec. exists "", "". by rewrite app_empty_r. Qed.

Lemma run_snoc st (es : list Event) (e : Event) :
  run st (es ++ [e]) = step (run st es) e.
Proof. unfold run. by rewrite foldl_app. Qed.

Lemma request_confirm_state st target :
  target ≠ "" →
  run st [ClickDelete target; ClickConfirm]
  = mkState (searchQuery st)
      (List.filter (λ p, negb (String.eqb (id p) target)) (providers st))
      false (Some target) (toasts st ++ [deletedToast]).
Proof.
  intros Hne. unfold run. simpl. unfold step at 1. simpl.
  rewrite (confirmDelete_selected target); [done | done | done].
Qed.

End view_facts.

(** X1: on ASCII text, typing more only narrows the table.  When a query
    occurs inside a longer query, the rows shown for the longer one are those
    shown for the shorter one filtered again, hence a subsequence of them. *)
Theorem search_narrows_with_longer_query
    (ps : list HealthcareProvider) (q q' : string) :
  isAscii q' = true →
  Forall (λ p, asciiProvider p = true) ps →
  substring_of q q' →
  filteredProviders ps q' = filteredProviders (filteredProviders ps q) q'
  ∧ filteredProviders ps q' `sublist_of` filteredProviders ps q.
Proof.
  intros _ _ Hq.
  assert (filteredProviders ps q'
          = filteredProviders (filteredProviders ps q) q') as Heq.
  { unfold filteredProviders. symmetry. apply filter_filter_imp.
    intros p. by apply matchesSearch_narrow. }
  split; [done |]. rewrite Heq. apply filter_is_sublist.
Qed.

Lemma search_narrows_with_longer_query_witness :
  isAscii "2024" = true
  ∧ Forall (λ p, asciiProvider p = true) sampleProviders
  ∧ substring_of "20" "2024"
  ∧ filteredProviders sampleProviders "2024"
    `sublist_of` filteredProviders sampleProviders "20".
Proof.
  assert (Forall (λ p, asciiProvider p = true) sampleProviders) as Hascii
    by (repeat constructor).
  assert (substring_of "20" "2024") as Hq by (by exists "", "24").
  split_and!; [reflexivity | exact Hascii | exact Hq |].
  apply (search_narrows_with_longer_query sampleProviders "20" "2024"
           eq_refl Hascii Hq).
Defined.

(** X2: the letter case of the query never matters: two queries with the
    same lower-case form show the same rows. *)
Theorem search_ignores_query_case
    (ps : list HealthcareProvider) (q1 q2 : string) :
  toLowerCase q1 = toLowerCase q2 →
  filteredProviders ps q1 = filteredProviders ps q2
  ∧ filteredProviders ps (toLowerCase q1) = filteredProviders ps q1.
Proof.
  intros Hq. unfold filteredProviders, matchesSearch.
  by rewrite toLowerCase_idemp, Hq.
Qed.

Lemma search_ignores_query_case_witness :
  toLowerCase "NorthWest" = toLowerCase "northwest"
  ∧ filteredProviders sampleProviders "NorthWest"
    = filteredProviders sampleProviders "northwest".
Proof.
  split; [reflexivity |].
  apply (search_ignores_query_case sampleProviders "NorthWest" "northwest").
  reflexivity.
Defined.

(** X3: delete and search commute: after the delete mutation the rows shown
    for a query are the rows shown before, without those carrying the
    deleted id, in the same order. *)
Theorem delete_commutes_with_search (st : State) (target q : string) :
  filteredProviders
    (providers (exec (mutate deleteProviderMutation target) st)) q
  = List.filter (λ p, negb (String.eqb (id p) target))
      (filteredProviders (providers st) q).
Proof. rewrite delete_providers. unfold filteredProviders. apply filter_swap. Qed.

(** X4: when ids are unique and the target is in the collection, the delete
    mutation removes exactly one row: the collection is one shorter, holds
    no row with the target id, and its ids are still unique. *)
Theorem delete_removes_exactly_one (st : State) (target : string) :
  NoDup (id <$> providers st) → target ∈ id <$> providers st →
  S (length (providers (exec (mutate deleteProviderMutation target) st)))
  = length (providers st)
  ∧ (target ∉ id <$> providers (exec (mutate deleteProviderMutation target) st))
  ∧ NoDup (id <$> providers (exec (mutate deleteProviderMutation target) st)).
Proof.
  intros Hnd Hin. rewrite delete_providers. split_and!.
  - by apply filter_one_removed.
  - intros (p & Hid & Hp)%list_elem_of_fmap.
    pose proof (filter_forall (λ p, negb (String.eqb (id p) target))
                  (providers st)) as Hall.
    rewrite Forall_forall in Hall. specialize (Hall p Hp).
    apply keeps_iff in Hall. congruence.
  - eapply sublist_NoDup; [exact Hnd | apply fmap_sublist, filter_is_sublist].
Qed.

Lemma delete_removes_exactly_one_witness :
  NoDup (id <$> providers initialState)
  ∧ "3" ∈ id <$> providers initialState
  ∧ S (length (providers (exec (mutate deleteProviderMutation "3") initialState)))
    = length (providers initialState).
Proof.
  assert (NoDup (id <$> providers initialState)) as Hnd by compute_done.
  assert ("3" ∈ id <$> providers initialState) as Hin by compute_done.
  split_and!; [exact Hnd | exact Hin |].
  apply (delete_removes_exactly_one initialState "3" Hnd Hin).
Defined.

(** X5: on the collection the delete mutation is idempotent, and deletes of
    two ids commute. *)
Theorem delete_idempotent_and_commutes (st : State) (t1 t2 : string) :
  providers (exec (mutate deleteProviderMutation t1)
               (exec (mutate deleteProviderMutation t1) st))
  = providers (exec (mutate deleteProviderMutation t1) st)
  ∧ providers (exec (mutate deleteProviderMutation t1)
                 (exec (mutate deleteProviderMutation t2) st))
    = providers (exec (mutate deleteProviderMutation t2)
                   (exec (mutate deleteProviderMutation t1) st)).
Proof.
  rewrite !delete_providers. split; [apply filter_twice | apply filter_swap].
Qed.

(** X6: [confirmDelete] does nothing when there is no pending target or
    the pending id is the empty string: the state is left as it is.  In
    particular a row whose id is empty cannot be deleted from the dialog,
    which stays open. *)
Theorem confirmDelete_without_target_is_noop (st : State) :
  truthy (selectedProviderId st) = false →
  exec confirmDelete st = st
  ∧ exec confirmDelete (exec (handleDelete "") st) = exec (handleDelete "") st
  ∧ deleteDialogOpen (exec confirmDelete (exec (handleDelete "") st)) = true.
Proof.
  intros Hsel. split_and!; [| done | done].
  unfold exec, confirmDelete, mbind, effect_bind, getSelectedProviderId.
  destruct (selectedProviderId st) as [t|]; [| done]. by rewrite Hsel.
Qed.

Lemma confirmDelete_without_target_is_noop_witness :
  truthy (selectedProviderId initialState) = false
  ∧ exec confirmDelete initialState = initialState.
Proof.
  split; [reflexivity |].
  apply (confirmDelete_without_target_is_noop initialState). reflexivity.
Defined.

(** X7: the whole delete flow.  Asking to delete a non-empty id and
    confirming removes the rows with that id, closes the dialog, raises the
    success notification and leaves the search query as it was. *)
Theorem request_then_confirm_deletes (st : State) (target : string) :
  target ≠ "" →
  run st [ClickDelete target; ClickConfirm]
  = mkState (searchQuery st)
      (List.filter (λ p, negb (String.eqb (id p) target)) (providers st))
      false (Some target) (toasts st ++ [deletedToast]).
Proof. apply request_confirm_state. Qed.

Lemma request_then_confirm_deletes_witness :
  "2" ≠ ""
  ∧ id <$> providers (run initialState [ClickDelete "2"; ClickConfirm])
    = ["1"; "3"; "4"].
Proof.
  split; [discriminate |].
  rewrite (request_then_confirm_deletes initialState "2"); [reflexivity |].
  discriminate.
Defined.

(** X8: one pending target at a time, and the last request wins: asking to
    delete one row and then another before confirming is the same as asking
    for the second alone, so the rows of the first request stay. *)
Theorem last_delete_request_wins (st : State) (t1 t2 : string) :
  t2 ≠ "" → t1 ≠ t2 →
  run st [ClickDelete t1; ClickDelete t2; ClickConfirm]
  = run st [ClickDelete t2; ClickConfirm]
  ∧ (∀ p, p ∈ providers st → id p = t1 →
          p ∈ providers (run st [ClickDelete t1; ClickDelete t2; ClickConfirm])).
Proof.
  intros Hne Hdiff. split; [done |].
  intros p Hp Hid.
  change (run st [ClickDelete t1; ClickDelete t2; ClickConfirm])
    with (run st [ClickDelete t2; ClickConfirm]).
  rewrite (request_confirm_state st t2 Hne). simpl.
  apply elem_of_bool_filter. split; [| done].
  apply keeps_iff. congruence.
Qed.

Lemma last_delete_request_wins_witness :
  "2" ≠ "" ∧ "1" ≠ "2"
  ∧ id <$> providers
             (run initialState [ClickDelete "1"; ClickDelete "2"; ClickConfirm])
    = ["1"; "3"; "4"].
Proof.
  split_and!; [discriminate | discriminate |].
  destruct (last_delete_request_wins initialState "1" "2") as [-> _];
    [discriminate | discriminate | reflexivity].
Defined.

(** X9: what each event can touch.  Only confirming changes the collection,
    only typing changes the query, only a trash button or an open request
    of the dialog opens it, and Cancel closes it. *)
Theorem step_frame (st : State) (e : Event) :
  (e ≠ ClickConfirm → providers (step st e) = providers st)
  ∧ ((∀ q, e ≠ TypeSearch q) → searchQuery (step st e) = searchQuery st)
  ∧ (deleteDialogOpen (step st e) = true →
     deleteDialogOpen st = true ∨ (∃ t, e = ClickDelete t) ∨ e = OpenChange true)
  ∧ deleteDialogOpen (step st ClickCancel) = false.
Proof.
  split_and!.
  - intros He. by destruct e.
  - intros He. destruct e as [q| | | | |]; try done.
    + by destruct (He q).
    + unfold step, handleEvent.
      destruct (selectedProviderId st) as [t|] eqn:Hsel.
      * destruct (decide (t = "")) as [-> | Hne].
        -- unfold exec, confirmDelete, mbind, effect_bind,
             getSelectedProviderId. by rewrite Hsel.
        -- by rewrite (confirmDelete_selected t st Hsel Hne).
      * unfold exec, confirmDelete, mbind, effect_bind,
          getSelectedProviderId. by rewrite Hsel.
  - destruct e as [q|t|t| | |[]]; eauto.
    + intros Hopen. discriminate Hopen.
    + unfold step, handleEvent.
      destruct (selectedProviderId st) as [t|] eqn:Hsel.
      * destruct (decide (t = "")) as [-> | Hne].
        -- unfold exec, confirmDelete, mbind, effect_bind,
             getSelectedProviderId. rewrite Hsel. eauto.
        -- by rewrite (confirmDelete_selected t st Hsel Hne).
      * unfold exec, confirmDelete, mbind, effect_bind,
          getSelectedProviderId. rewrite Hsel. eauto.
    + intros Hopen. discriminate Hopen.
  - done.
Qed.

(** X10: whatever the user does, the collection only shrinks: after any
    sequence of events it is a subsequence of the collection before, so no
    row is added, changed or reordered and unique ids stay unique;
    notifications are only appended; a pending delete target, once set, is
    never cleared. *)
Theorem run_invariants (st : State) (es : list Event) :
  providers (run st es) `sublist_of` providers st
  ∧ toasts st `prefix_of` toasts (run st es)
  ∧ (NoDup (id <$> providers st) → NoDup (id <$> providers (run st es)))
  ∧ (is_Some (selectedProviderId st) →
     is_Some (selectedProviderId (run st es))).
Proof.
  assert (providers (run st es) `sublist_of` providers st) as Hsub.
  { induction es as [|e es IH] using rev_ind; [done |].
    rewrite run_snoc. etrans; [apply step_providers_sublist | done]. }
  split_and!.
  - done.
  - clear Hsub. induction es as [|e es IH] using rev_ind; [done |].
    rewrite run_snoc. etrans; [done | apply step_toasts_prefix].
  - intros Hnd. eapply sublist_NoDup; [exact Hnd | by apply fmap_sublist].
  - clear Hsub. intros Hsel.
    induction es as [|e es IH] using rev_ind; [done |].
    rewrite run_snoc. by apply step_selected_kept.
Qed.

(** X11: starting from the initial page, as long as nothing asks the dialog
    to open by itself, an open dialog always has a pending delete target. *)
Theorem open_dialog_has_target (es : list Event) :
  noOpenRequest es →
  deleteDialogOpen (run initialState es) = true →
  is_Some (selectedProviderId (run initialState es)).
Proof.
  unfold noOpenRequest.
  induction es as [|e es IH] using rev_ind; [done |].
  intros Hno. rewrite run_snoc. apply step_dialog_target.
  - intros ->. apply Hno. apply elem_of_app. right. by left.
  - apply IH. intros Hin. apply Hno. apply elem_of_app. by left.
Qed.

Lemma open_dialog_has_target_witness :
  noOpenRequest [TypeSearch "north"; ClickDelete "2"]
  ∧ deleteDialogOpen (run initialState [TypeSearch "north"; ClickDelete "2"])
    = true
  ∧ is_Some (selectedProviderId
               (run initialState [TypeSearch "north"; ClickDelete "2"])).
Proof.
  assert (noOpenRequest [TypeSearch "north"; ClickDelete "2"]) as Hno.
  { unfold noOpenRequest. intros Hin.
    apply elem_of_cons in Hin as [Hin | Hin]; [discriminate |].
    apply elem_of_cons in Hin as [Hin | Hin]; [discriminate |].
    by apply elem_of_nil in Hin. }
  split_and!; [exact Hno | reflexivity |].
  apply (open_dialog_has_target [TypeSearch "north"; ClickDelete "2"] Hno).
  reflexivity.
Defined.

(** X12: the table body is never empty: it is the single placeholder row
    exactly when no provider matches the query, and otherwise one row per
    matching provider, in order.  The Group ID cell of a row shows "-" when
    [ehrGroupId] is [null] or empty and the group id itself otherwise, so
    no row has a blank Group ID cell. *)
Theorem tableBody_rows (st : State) :
  tableBody st ≠ []
  ∧ (tableBody st = [NoClientsRow]
     ↔ filteredProviders (providers st) (searchQuery st) = [])
  ∧ (filteredProviders (providers st) (searchQuery st) ≠ [] →
     tableBody st
     = providerRow <$> filteredProviders (providers st) (searchQuery st))
  ∧ (∀ p, ehrGroupId p = None ∨ ehrGroupId p = Some "" →
          rowGroup (providerRow p) = Some "-")
  ∧ (∀ p g, ehrGroupId p = Some g → g ≠ "" →
            rowGroup (providerRow p) = Some g)
  ∧ Forall (λ r, rowGroup r ≠ Some "") (tableBody st).
Proof.
  assert (∀ l : list HealthcareProvider,
            Forall (λ r, rowGroup r ≠ Some "") (providerRow <$> l)) as Hcells.
  { intros l. apply Forall_fmap, Forall_forall. intros x _.
    unfold providerRow, rowGroup, groupIdCell, compose. simpl.
    destruct (ehrGroupId x) as [g|]; [| done]. simpl.
    destruct (String.eqb g "") eqn:Hg; simpl; [done |].
    apply String.eqb_neq in Hg. congruence. }
  assert (∀ p, ehrGroupId p = None ∨ ehrGroupId p = Some "" →
               rowGroup (providerRow p) = Some "-") as Hdash.
  { intros p [Hg | Hg]; unfold providerRow, rowGroup, groupIdCell;
      by rewrite Hg. }
  assert (∀ p g, ehrGroupId p = Some g → g ≠ "" →
                 rowGroup (providerRow p) = Some g) as Hshown.
  { intros p g Hg Hne. unfold providerRow, rowGroup, groupIdCell.
    rewrite Hg. simpl. apply String.eqb_neq in Hne. by rewrite Hne. }
  unfold tableBody.
  destruct (filteredProviders (providers st) (searchQuery st)) as [|p l] eqn:Hl.
  - split_and!; try done. by repeat constructor.
  - split_and!; try done. apply Hcells.
Qed.

(** X18: searching for a row's own name, email or group id always shows
    that row; searching for its own phone shows it when the phone has no
    upper-case letter. *)
Theorem search_finds_own_fields
    (ps : list HealthcareProvider) (p : HealthcareProvider) :
  p ∈ ps →
  p ∈ filteredProviders ps (providerName p)
  ∧ p ∈ filteredProviders ps (contactEmail p)
  ∧ (∀ g, ehrGroupId p = Some g → p ∈ filteredProviders ps g)
  ∧ (toLowerCase (contactPhone p) = contactPhone p →
     p ∈ filteredProviders ps (contactPhone p)).
Proof.
  intros Hp. unfold filteredProviders. split_and!.
  - apply elem_of_bool_filter. split; [| done].
    unfold matchesSearch. rewrite !orb_true_iff. do 3 left.
    apply includes_self.
  - apply elem_of_bool_filter. split; [| done].
    unfold matchesSearch. rewrite !orb_true_iff. left. right.
    apply includes_self.
  - intros g Hg. apply elem_of_bool_filter. split; [| done].
    unfold matchesSearch. rewrite !orb_true_iff, Hg.
    destruct (decide (g = "")) as [-> | Hne].
    + do 3 left. apply includes_empty.
    + do 2 left. right. simpl. apply String.eqb_neq in Hne. rewrite Hne.
      apply includes_self.
  - intros Hph. apply elem_of_bool_filter. split; [| done].
    unfold matchesSearch. rewrite !orb_true_iff, Hph. right.
    apply includes_self.
Qed.

Lemma search_finds_own_fields_witness :
  vanityProvider ∈ [providerA; vanityProvider]
  ∧ vanityProvider
    ∈ filteredProviders [providerA; vanityProvider] (providerName vanityProvider).
Proof.
  assert (vanityProvider ∈ [providerA; vanityProvider]) as Hin.
  { apply elem_of_cons. right. apply elem_of_cons. by left. }
  split; [exact Hin |].
  destruct (search_finds_own_fields [providerA; vanityProvider] vanityProvider
              Hin) as [Hname _].
  exact Hname.
Defined.

(** ** Insert schemas *)

Section schema_facts.
Import Zod Drizzle Schema.

Implicit Types (sh : gmap string ZodType) (data out : gmap string JsValue).

Lemma field_knownFields sh data k :
  is_Some (sh !! k) → field (knownFields sh data) k = field data k.
Proof.
  intros Hk. unfold field, knownFields. f_equal.
  rewrite map_lookup_filter. destruct (data !! k) as [v|]; simpl; [|done].
  by rewrite option_guard_True.
Qed.

Lemma lookup_knownFields_None sh data k :
  is_Some (sh !! k) → knownFields sh data !! k = None ↔ data !! k = None.
Proof.
  intros Hk. unfold knownFields. rewrite map_lookup_filter_None.
  split; [| by left].
  intros [H | H]; [done |]. destruct (data !! k) as [v|]; [|done].
  by destruct (H v).
Qed.

Lemma fieldsValid_knownFields sh data :
  fieldsValid sh (knownFields sh data) = fieldsValid sh data.
Proof.
  unfold fieldsValid. apply bool_decide_ext.
  split; intros H k t Hk; specialize (H k t Hk); simpl in *.
  - by rewrite field_knownFields in H.
  - by rewrite field_knownFields.
Qed.

Lemma output_knownFields sh data :
  map_imap (keyOutput (knownFields sh data)) sh = map_imap (keyOutput data) sh.
Proof.
  apply map_eq. intros k. rewrite !map_lookup_imap.
  destruct (sh !! k) as [t|] eqn:Hk; simpl; [|done].
  unfold keyOutput. rewrite field_knownFields by eauto.
  destruct (parseValue t (field data k)) as [v|]; [|done].
  apply (f_equal (λ b : bool, if b then None else Some v)).
  apply bool_decide_ext. by rewrite lookup_knownFields_None by eauto.
Qed.

(** A schema that strips unknown keys gives the same result on a payload
    and on its known fields. *)
Lemma safeParse_strip_knownFields (o : ZodObject) data :
  unknownKeys o = Strip →
  safeParse o data = safeParse o (knownFields (shape o) data).
Proof.
  intros Hs. unfold safeParse.
  by rewrite Hs, fieldsValid_knownFields, output_knownFields.
Qed.

(** Its output has no key outside the shape. *)
Lemma safeParse_strip_output (o : ZodObject) data out k :
  unknownKeys o = Strip → safeParse o data = Success out →
  shape o !! k = None → out !! k = None.
Proof.
  intros Hs Hp Hk. unfold safeParse in Hp. rewrite Hs in Hp.
  destruct (fieldsValid (shape o) data); [|done].
  injection Hp as <-. by rewrite map_lookup_imap, Hk.
Qed.

Lemma insertSchemas_strip (o : ZodObject) :
  o ∈ insertSchemas → unknownKeys o = Strip.
Proof.
  unfold insertSchemas. intros Ho.
  repeat (apply elem_of_cons in Ho as [-> | Ho]; [done |]).
  by apply elem_of_nil in Ho.
Qed.

(** A schema that strips unknown keys returns a payload unchanged when
    every key of the shape parses to itself and the payload has no other
    key. *)
Lemma safeParse_strip_fixpoint (o : ZodObject) data :
  unknownKeys o = Strip →
  (∀ k, match shape o !! k with
        | Some t => parseValue t (field data k) = Success (field data k)
        | None => data !! k = None
        end) →
  safeParse o data = Success data.
Proof.
  intros Hs Hk. unfold safeParse. rewrite Hs.
  assert (fieldsValid (shape o) data = true) as ->.
  { apply bool_decide_eq_true. intros k t Ht. specialize (Hk k).
    rewrite Ht in Hk. simpl. by rewrite Hk. }
  f_equal. apply map_eq. intros k. rewrite map_lookup_imap.
  specialize (Hk k). destruct (shape o !! k) as [t|]; simpl; [|done].
  unfold keyOutput. rewrite Hk. unfold field.
  destruct (data !! k) as [v|]; case_bool_decide as Hc; try done.
  - by destruct Hc.
  - by destruct Hc.
Qed.

Lemma provider_shape_outside (k : string) :
  k ∉ insertProviderKeys → shape insertHealthcareProviderSchema !! k = None.
Proof.
  intros Hk.
  change (shape insertHealthcareProviderSchema) with
    (filter (λ kt : string * ZodType, kt.1 ∉ ["id"; "createdAt"])
       (insertColumnSchema
          <$> (list_to_map (columns healthcareProviders) : gmap string Column))).
  apply map_lookup_filter_None.
  destruct (decide (k ∈ ["id"; "createdAt"])) as [Hin | Hout].
  - right. by intros t _ Hn.
  - left. rewrite lookup_fmap.
    rewrite (not_elem_of_list_to_map_1 (columns healthcareProviders)); [done |].
    simpl. intros Hin. apply Hk.
    repeat (apply elem_of_cons in Hin as [-> | Hin];
            [first [ compute_done | exfalso; apply Hout; compute_done ] |]).
    apply elem_of_nil in Hin as [].
Qed.

Lemma payload_outside (r : Schema.HealthcareProvider) (k : string) :
  k ∉ insertProviderKeys → insertPayload r !! k = None.
Proof.
  intros Hk. unfold insertPayload.
  destruct (decide (k = "createdAt")) as [-> | Hc]; [apply lookup_delete_eq |].
  rewrite lookup_delete_ne by done.
  destruct (decide (k = "id")) as [-> | Hi]; [apply lookup_delete_eq |].
  rewrite lookup_delete_ne by done.
  apply not_elem_of_list_to_map_1. simpl. intros Hin. apply Hk.
  repeat (apply elem_of_cons in Hin as [-> | Hin];
          [first [ compute_done | by destruct Hc | by destruct Hi ] |]).
  apply elem_of_nil in Hin as [].
Qed.

End schema_facts.

Import Zod Drizzle Schema.

(** C7: for every persisted row of [healthcare_providers], the payload made
    of the row without [id] and [createdAt] passes
    [insertHealthcareProviderSchema], which returns it unchanged. *)
Theorem insert_payload_of_row_is_valid (r : Schema.HealthcareProvider) :
  safeParse insertHealthcareProviderSchema (insertPayload r)
  = Success (insertPayload r)
  ∧ insertPayload r !! "id" = None
  ∧ insertPayload r !! "createdAt" = None.
Proof.
  split_and!; [| reflexivity | reflexivity].
  apply safeParse_strip_fixpoint; [reflexivity |]. intros k.
  destruct (decide (k ∈ insertProviderKeys)) as [Hin | Hout].
  - unfold insertProviderKeys in Hin.
    repeat (apply elem_of_cons in Hin as [-> | Hin];
            [eval_key; repeat case_match; reflexivity |]).
    apply elem_of_nil in Hin as [].
  - rewrite provider_shape_outside by done. by apply payload_outside.
Qed.

(** C8 (as amended): no insert schema rejects a payload for carrying extra
    fields.  A field outside the insert shape, such as an omitted primary
    key or timestamp, is ignored: validation gives the same result as on the
    payload without it, and a validated output never contains it.  Every
    server-generated column is outside its insert shape, except the [id] of
    the EHR-system schema, which that schema declares itself. *)
Theorem insert_schemas_strip_extra_fields
    (o : ZodObject) (data : gmap string JsValue) :
  o ∈ insertSchemas →
  safeParse o data = safeParse o (knownFields (shape o) data)
  ∧ (∀ out k, safeParse o data = Success out →
              shape o !! k = None → out !! k = None)
  ∧ declaredServerKeys <$> tableSchemas = [[]; []; ["id"]; []].
Proof.
  intros Ho. apply insertSchemas_strip in Ho. split_and!.
  - by apply safeParse_strip_knownFields.
  - intros out k. by apply safeParse_strip_output.
  - by vm_compute.
Qed.

Lemma insert_schemas_strip_extra_fields_witness :
  insertHealthcareProviderSchema ∈ insertSchemas
  ∧ safeParse insertHealthcareProviderSchema providerPayloadWithServerFields
    = safeParse insertHealthcareProviderSchema
        (knownFields (shape insertHealthcareProviderSchema)
           providerPayloadWithServerFields).
Proof.
  assert (insertHealthcareProviderSchema ∈ insertSchemas) as Hin.
  { unfold insertSchemas. apply elem_of_cons. right. apply elem_of_cons.
    left. reflexivity. }
  split; [exact Hin |].
  apply (insert_schemas_strip_extra_fields insertHealthcareProviderSchema
           providerPayloadWithServerFields Hin).
Defined.

(** C8 as written fails: a provider payload that carries [id] and
    [createdAt], both server-generated and outside the insert shape, is
    accepted, with the two fields dropped from the output; and the
    EHR-system schema accepts a payload that carries the primary key. *)
Lemma insert_schema_accepts_server_fields_counterexample :
  serverGenerated healthcareProviders = ["id"; "createdAt"]
  ∧ providerPayloadWithServerFields !! "id" = Some (JNumber 7)
  ∧ providerPayloadWithServerFields !! "createdAt" = Some (JDate 0)
  ∧ shape insertHealthcareProviderSchema !! "id" = None
  ∧ shape insertHealthcareProviderSchema !! "createdAt" = None
  ∧ safeParse insertHealthcareProviderSchema providerPayloadWithServerFields
    = Success providerFields
  ∧ "id" ∈ serverGenerated ehrSystems
  ∧ safeParse insertEhrSystemSchema ehrPayloadWithId = Success ehrPayloadWithId
  ∧ ¬ (∀ o data k, o ∈ insertSchemas → shape o !! k = None →
         is_Some (data !! k) → safeParse o data = Failure).
Proof.
  assert (safeParse insertHealthcareProviderSchema
            providerPayloadWithServerFields = Success providerFields) as Hparse.
  { vm_compute. reflexivity. }
  split_and!.
  1-5, 8: vm_compute; reflexivity.
  - exact Hparse.
  - compute_done.
  - intros Hclaim.
    assert (insertHealthcareProviderSchema ∈ insertSchemas) as Hin.
    { unfold insertSchemas. apply elem_of_cons. right. apply elem_of_cons.
      left. reflexivity. }
    specialize (Hclaim insertHealthcareProviderSchema
                  providerPayloadWithServerFields "id" Hin eq_refl
                  (mk_is_Some _ _ eq_refl)).
    rewrite Hparse in Hclaim. discriminate Hclaim.
Qed.

(** ** Further properties of the insert schemas *)

Section schema_accepts.

Implicit Types (sh : gmap string ZodType) (data out : gmap string JsValue)
  (v : JsValue) (t : ZodType).

(** A value that parses is returned as it is. *)
Lemma parseValue_input t v v' : parseValue t v = Success v' → v' = v.
Proof.
  revert v v'. induction t as [checks|checks| | |t IH|t IH]; intros v v' H;
    destruct v; simpl in H; try discriminate; try (by injection H);
    try (by apply IH).
  - destruct (forallb (checkString s) checks); [by injection H | discriminate].
  - destruct (forallb (checkNumber (JNumber n)) checks);
      [by injection H | discriminate].
  - destruct (forallb (checkNumber (JFraction floor)) checks);
      [by injection H | discriminate].
  - destruct (forallb (checkNumber (JInfinity negative)) checks);
      [by injection H | discriminate].
Qed.

Lemma output_is_knownFields sh data :
  fieldsValid sh data = true →
  map_imap (keyOutput data) sh = knownFields sh data.
Proof.
  intros Hv%bool_decide_eq_true.
  assert (∀ k t, sh !! k = Some t →
            keyOutput data k t
            = if bool_decide (field data k = JUndefined ∧ data !! k = None)
              then None else Some (field data k)) as Hout.
  { intros k t Hk. specialize (Hv k t Hk). cbv beta in Hv. unfold keyOutput.
    destruct (parseValue t (field data k)) as [v'|] eqn:Hp; [| done].
    by apply parseValue_input in Hp as ->. }
  apply map_eq. intros k. rewrite map_lookup_imap. unfold knownFields.
  destruct (filter _ data !! k) as [v|] eqn:Hf.
  - apply map_lookup_filter_Some in Hf as [Hd [t Hk]]. cbn [fst] in Hk.
    rewrite Hk. cbn [mbind option_bind]. rewrite (Hout k t Hk).
    unfold field. rewrite Hd. cbn [default].
    rewrite bool_decide_eq_false_2; [done | by intros [_ ?]].
  - apply map_lookup_filter_None in Hf.
    destruct (sh !! k) as [t|] eqn:Hk; [| done].
    cbn [mbind option_bind]. rewrite (Hout k t Hk).
    assert (data !! k = None) as Hd.
    { destruct Hf as [Hd | Hd]; [done |].
      destruct (data !! k) as [v|] eqn:Hd'; [| done].
      destruct (Hd v eq_refl). cbn [fst]. rewrite Hk. eauto. }
    unfold field. rewrite Hd. cbn [default].
    by rewrite bool_decide_eq_true_2.
Qed.

Lemma safeParse_strip_eq (o : ZodObject) data :
  unknownKeys o = Strip →
  safeParse o data
  = if fieldsValid (shape o) data
    then Success (knownFields (shape o) data) else Failure.
Proof.
  intros Hs. unfold safeParse. rewrite Hs.
  destruct (fieldsValid (shape o) data) eqn:Hv; [| done].
  by rewrite output_is_knownFields.
Qed.

Lemma fieldsValid_list sh data :
  fieldsValid sh data = true
  ↔ Forall (λ kt, parseValue kt.2 (field data kt.1) ≠ Failure) (map_to_list sh).
Proof.
  unfold fieldsValid. rewrite bool_decide_eq_true, map_Forall_to_list.
  apply Forall_proper; [| done]. by intros [k t].
Qed.

Lemma safeParse_strip_accepts (o : ZodObject) data :
  unknownKeys o = Strip →
  safeParse o data ≠ Failure
  ↔ Forall (λ kt, parseValue kt.2 (field data kt.1) ≠ Failure)
      (map_to_list (shape o)).
Proof.
  intros Hs. rewrite <- fieldsValid_list, (safeParse_strip_eq o data Hs).
  by destruct (fieldsValid (shape o) data).
Qed.

Lemma parse_string v : parseValue (ZString []) v ≠ Failure ↔ isString v.
Proof.
  unfold isString. destruct v; simpl; split; try done;
    try (by intros [? ?]); eauto.
Qed.

Lemma parse_string_max (n : nat) v :
  parseValue (ZString [MaxLength n]) v ≠ Failure ↔ isStringUpTo n v.
Proof.
  unfold isStringUpTo. destruct v as [| |s| | | | | | |]; simpl; split; try done;
    try (by intros (? & ? & ?)).
  - destruct (String.length s <=? n)%nat eqn:Hl; simpl; [| done].
    intros _. exists s. split; [done |]. by apply Nat.leb_le.
  - intros (s' & [= <-] & Hl). apply Nat.leb_le in Hl. by rewrite Hl.
Qed.

Lemma parse_uuid v : parseValue (ZString [Uuid]) v ≠ Failure ↔ isUuidString v.
Proof.
  unfold isUuidString. destruct v as [| |s| | | | | | |]; simpl; split; try done;
    try (by intros (? & ? & ?)).
  - destruct (isUuid s) eqn:Hu; simpl; [eauto | done].
  - intros (s' & [= <-] & Hu). by rewrite Hu.
Qed.

Lemma parse_int32 v :
  parseValue (ZNumber [Min int32Min; Max int32Max; Int]) v ≠ Failure
  ↔ isInt32 v.
Proof.
  unfold isInt32. destruct v as [| | |n| | | |f|neg|]; simpl; split; try done;
    try (by intros (? & ? & ?)); try (by rewrite !andb_false_r).
  - destruct (int32Min <=? n)%Z eqn:Hlo, (n <=? int32Max)%Z eqn:Hhi;
      simpl; try done.
    intros _. exists n. split; [done |]. lia.
  - intros (n' & [= <-] & Hlo & Hhi).
    apply Z.leb_le in Hlo, Hhi. by rewrite Hlo, Hhi.
Qed.

Lemma parse_boolean v : parseValue ZBoolean v ≠ Failure ↔ isBoolean v.
Proof.
  unfold isBoolean. destruct v; simpl; split; try done;
    try (by intros [? ?]); eauto.
Qed.

Lemma parse_optional t (P : JsValue → Prop) :
  (∀ v, parseValue t v ≠ Failure ↔ P v) →
  ∀ v, parseValue (ZOptional t) v ≠ Failure ↔ orMissing P v.
Proof.
  intros Ht v. unfold orMissing.
  destruct v; simpl; rewrite ?Ht; split; try (intros [? | ?]); eauto; done.
Qed.

Lemma parse_optional_nullable t (P : JsValue → Prop) :
  (∀ v, parseValue t v ≠ Failure ↔ P v) →
  ∀ v, parseValue (ZOptional (ZNullable t)) v ≠ Failure ↔ orNullish P v.
Proof.
  intros Ht v. unfold orNullish.
  destruct v; simpl; rewrite ?Ht; split; try (intros [? | [? | ?]]);
    eauto; done.
Qed.

Lemma insertSchemas_cases (o : ZodObject) :
  o ∈ insertSchemas →
  o = insertUserSchema ∨ o = insertHealthcareProviderSchema
  ∨ o = insertEhrSystemSchema ∨ o = insertDataFetchHistorySchema.
Proof.
  unfold insertSchemas. intros Ho.
  repeat (apply elem_of_cons in Ho as [-> | Ho]; [eauto |]).
  by apply elem_of_nil in Ho.
Qed.

End schema_accepts.

(** Reduces "the schema accepts the payload" to one condition per key of
    its shape. *)
Ltac accepts_by_keys :=
  rewrite safeParse_strip_accepts by reflexivity;
  match goal with
  | |- context [map_to_list ?m] =>
      let l := eval vm_compute in (map_to_list m) in
      change (map_to_list m) with l
  end;
  rewrite !Forall_cons, !Forall_nil; cbv beta; cbn [fst snd];
  rewrite ?parse_string, ?parse_int32,
    ?(parse_string_max 255),
    ?(parse_optional _ _ parse_uuid),
    ?(parse_optional_nullable _ _ parse_string),
    ?(parse_optional_nullable _ _ (parse_string_max 255)),
    ?(parse_optional_nullable _ _ parse_boolean),
    ?(parse_optional_nullable _ _ parse_int32).

(** X13: what validation returns.  When an insert schema accepts a
    payload, the output is exactly the payload restricted to the keys of the
    shape: no value is changed and no default is filled in; validating the
    output again returns it unchanged. *)
Theorem validated_output_is_known_fields
    (o : ZodObject) (data out : gmap string JsValue) :
  o ∈ insertSchemas → safeParse o data = Success out →
  out = knownFields (shape o) data
  ∧ (∀ k v, out !! k = Some v → data !! k = Some v)
  ∧ safeParse o out = Success out.
Proof.
  intros Ho%insertSchemas_strip Hp.
  assert (out = knownFields (shape o) data) as ->.
  { rewrite (safeParse_strip_eq o data Ho) in Hp.
    destruct (fieldsValid (shape o) data); [by injection Hp | done]. }
  split_and!.
  - done.
  - intros k v Hk. unfold knownFields in Hk.
    by apply map_lookup_filter_Some in Hk as [Hk _].
  - by rewrite <- (safeParse_strip_knownFields o data Ho).
Qed.

Lemma validated_output_is_known_fields_witness :
  insertHealthcareProviderSchema ∈ insertSchemas
  ∧ safeParse insertHealthcareProviderSchema providerPayloadWithServerFields
    = Success providerFields
  ∧ safeParse insertHealthcareProviderSchema providerFields
    = Success providerFields.
Proof.
  assert (insertHealthcareProviderSchema ∈ insertSchemas) as Hin.
  { unfold insertSchemas. apply elem_of_cons. right. apply elem_of_cons.
    left. reflexivity. }
  assert (safeParse insertHealthcareProviderSchema
            providerPayloadWithServerFields = Success providerFields) as Hp.
  { vm_compute. reflexivity. }
  split_and!; [exact Hin | exact Hp |].
  apply (validated_output_is_known_fields insertHealthcareProviderSchema
           providerPayloadWithServerFields providerFields Hin Hp).
Defined.

(** X14: which payloads [insertHealthcareProviderSchema] accepts: those
    where [name], [groupId], [email] and [phone] are strings and each of the
    seven remaining columns is missing, [undefined], [null] or a string. *)
Theorem insertHealthcareProviderSchema_accepts (data : gmap string JsValue) :
  safeParse insertHealthcareProviderSchema data ≠ Failure
  ↔ Forall (λ k, isString (field data k)) ["name"; "groupId"; "email"; "phone"]
    ∧ Forall (λ k, orNullish isString (field data k))
        ["contactName"; "company"; "address"; "city"; "state"; "zipCode";
         "country"].
Proof.
  accepts_by_keys. tauto.
Qed.

(** X15: [insertUserSchema] accepts exactly the payloads whose [username]
    and [password] are strings. *)
Theorem insertUserSchema_accepts (data : gmap string JsValue) :
  safeParse insertUserSchema data ≠ Failure
  ↔ isString (field data "username") ∧ isString (field data "password").
Proof. accepts_by_keys. tauto. Qed.

(** X16: on a payload whose [ehrName] and [apiBaseEndpoint] are not
    strings outside ASCII text, [insertEhrSystemSchema] accepts exactly when
    [ehrName] is a string of at most 255 characters, [id] is missing,
    [undefined] or a UUID string ([null] is refused), [apiBaseEndpoint] is
    nullish or a string of at most 255 characters, [description] is nullish
    or a string, [isSupported] is nullish or a boolean and [providerId] is
    nullish or an integer in the 32-bit signed range. *)
Theorem insertEhrSystemSchema_accepts (data : gmap string JsValue) :
  asciiValue (field data "ehrName") = true →
  asciiValue (field data "apiBaseEndpoint") = true →
  safeParse insertEhrSystemSchema data ≠ Failure
  ↔ isStringUpTo 255 (field data "ehrName")
    ∧ orMissing isUuidString (field data "id")
    ∧ orNullish (isStringUpTo 255) (field data "apiBaseEndpoint")
    ∧ orNullish isString (field data "description")
    ∧ orNullish isBoolean (field data "isSupported")
    ∧ orNullish isInt32 (field data "providerId").
Proof. intros _ _. accepts_by_keys. tauto. Qed.

Lemma insertEhrSystemSchema_accepts_witness :
  asciiValue (field ehrPayloadWithId "ehrName") = true
  ∧ asciiValue (field ehrPayloadWithId "apiBaseEndpoint") = true
  ∧ (safeParse insertEhrSystemSchema ehrPayloadWithId ≠ Failure
     ↔ isStringUpTo 255 (field ehrPayloadWithId "ehrName")
       ∧ orMissing isUuidString (field ehrPayloadWithId "id")
       ∧ orNullish (isStringUpTo 255) (field ehrPayloadWithId "apiBaseEndpoint")
       ∧ orNullish isString (field ehrPayloadWithId "description")
       ∧ orNullish isBoolean (field ehrPayloadWithId "isSupported")
       ∧ orNullish isInt32 (field ehrPayloadWithId "providerId")).
Proof.
  split_and!; [reflexivity | reflexivity |].
  apply (insertEhrSystemSchema_accepts ehrPayloadWithId); reflexivity.
Defined.

(** X17: [insertDataFetchHistorySchema] accepts exactly the payloads where
    [providerId] is an integer in the 32-bit signed range (a fraction, an
    infinity, [NaN] or 2147483648 is refused), [s3Location] is a string and
    [status] is nullish or a string. *)
Theorem insertDataFetchHistorySchema_accepts (data : gmap string JsValue) :
  safeParse insertDataFetchHistorySchema data ≠ Failure
  ↔ isInt32 (field data "providerId")
    ∧ isString (field data "s3Location")
    ∧ orNullish isString (field data "status").
Proof. accepts_by_keys. tauto. Qed.
